(** * A Bloom filter over three string hashes (src/main.cpp)

    A shallow embedding of [polynomial_hash], [djb2], [sdbm] and of the
    class [BloomFilter] (constructor, [add], [contains], [test]), followed
    by the properties proved about them.

    Conventions of the embedding:
    - [unsigned long long] is a [Z] kept in [0, 2^64) by [u64];
      [long long] and [int] are [Z]s kept in range by [s64] and [s32]
      (two's-complement wrap-around, the result on the usual targets);
    - [std::string] is [string], a sequence of 8-bit characters;
    - [std::bitset<1000001>] is the finite set of the indices of its
      true bits, with the range check of [set] and [test] written out;
    - the methods run in a state-and-exception monad over the object and
      the two output streams; files are a read-only map from names to
      the sequence of lines [getline] yields. *)

From Stdlib Require Import ZArith Lia List Permutation Ascii String.
From stdpp Require Import base gmap sets list strings.

Local Open Scope Z_scope.
#[local] Set Warnings "-clear-no-such-hyp".

(** ** Machine integers and characters *)

Module Machine.

Definition u64 (z : Z) : Z := z mod 2 ^ 64.
Definition s64 (z : Z) : Z := (z + 2 ^ 63) mod 2 ^ 64 - 2 ^ 63.
Definition s32 (z : Z) : Z := (z + 2 ^ 31) mod 2 ^ 32 - 2 ^ 31.

Definition INT_MAX : Z := 2147483647.

(** Whether plain [char] is signed is the platform's choice
    (signed on x86-64, unsigned on AArch64 Linux). *)
Class Platform := { char_is_signed : bool }.

(** The value of a [char] after promotion to [int]. *)
Definition char_code `{Platform} (c : ascii) : Z :=
  let n := Z.of_N (N_of_ascii c) in
  if char_is_signed && (128 <=? n) then n - 256 else n.

End Machine.
Export Machine.

#[export] Instance x86_64 : Platform := {| char_is_signed := true |}.
Definition aarch64 : Platform := {| char_is_signed := false |}.

(** ** The three hash functions *)

Section Hashes.
Context {pf : Platform}.

(** Lines 21-31.  [hash] is unsigned, [p_pow] is signed: the product
    [(c - 'a' + 1) * p_pow] is a [long long], converted to unsigned for
    the sum; the first [%] is unsigned (with [m] converted), the second
    is the signed remainder. *)
Fixpoint polynomial_hash_loop (s : string) (p m : Z) (hash p_pow : Z) : Z :=
  match s with
  | EmptyString => hash
  | String c s' =>
      let hash' :=
        u64 (hash + u64 (s64 ((char_code c - 97 + 1) * p_pow))) mod u64 m in
      let p_pow' := Z.rem (s64 (p_pow * p)) m in
      polynomial_hash_loop s' p m hash' p_pow'
  end.

Definition polynomial_hash (s : string) (p m : Z) : Z :=
  polynomial_hash_loop s p m 0 1.

(** Lines 45-53. *)
Fixpoint djb2_loop (s : string) (hash : Z) : Z :=
  match s with
  | EmptyString => hash
  | String c s' =>
      djb2_loop s' (u64 (u64 (u64 (Z.shiftl hash 5) + hash) + u64 (char_code c)))
  end.

Definition djb2 (s : string) : Z := djb2_loop s 5381.

(** Lines 65-73.  The expression associates to the left. *)
Fixpoint sdbm_loop (s : string) (hash : Z) : Z :=
  match s with
  | EmptyString => hash
  | String c s' =>
      sdbm_loop s'
        (u64 (u64 (u64 (u64 (char_code c) + u64 (Z.shiftl hash 6))
                   + u64 (Z.shiftl hash 16))
              - hash))
  end.

Definition sdbm (s : string) : Z := sdbm_loop s 0.

End Hashes.

(** ** std::bitset<1000001> *)

Inductive exn := out_of_range.

(** [bits.size()], the template argument of the member [bits]. *)
Definition bitset_size : Z := 1000001.

(** [set(pos)] and [test(pos)] throw [std::out_of_range] when [pos] is
    not a valid position ([pos] is a [size_t]). *)
Definition bitset_set (pos : Z) (b : gset Z) : exn + gset Z :=
  if (0 <=? pos) && (pos <? bitset_size) then inr ({[pos]} ∪ b)
  else inl out_of_range.

Definition bitset_test (pos : Z) (b : gset Z) : exn + bool :=
  if (0 <=? pos) && (pos <? bitset_size) then inr (bool_decide (pos ∈ b))
  else inl out_of_range.

(** ** Output streams *)

(** What [operator<<] is given: a string, an [int], or [endl]. *)
Inductive token := Str (s : string) | Int (n : Z) | Endl.

Definition nl : string := String "010"%char EmptyString.

(** ** class BloomFilter *)

Module BloomFilter.

(** The data members, lines 78-82. *)
Record t := mk {
  p : Z;
  m : Z;
  size : Z;
  filename : string;
  bits : gset Z
}.

Record state := {
  this : t;
  cout : list token;
  cerr : list token
}.

Inductive result (A : Type) :=
| Ok (a : A) (st : state)
| Throw (e : exn).
Arguments Ok {A} a st.
Arguments Throw {A} e.

Definition M (A : Type) : Type := state → result A.

#[export] Instance M_ret : MRet M := λ A a st, Ok a st.
#[export] Instance M_bind : MBind M := λ A B k c st,
  match c st with
  | Ok a st' => k a st'
  | Throw e => Throw e
  end.

Definition get_this : M t := λ st, Ok (this st) st.

Definition with_this (bf : t) (st : state) : state :=
  {| this := bf; cout := cout st; cerr := cerr st |}.

Definition with_bits (b : gset Z) (bf : t) : t :=
  {| p := p bf; m := m bf; size := size bf; filename := filename bf; bits := b |}.

Definition with_size (n : Z) (bf : t) : t :=
  {| p := p bf; m := m bf; size := n; filename := filename bf; bits := bits bf |}.

(** [bits.set(pos)] *)
Definition bits_set (pos : Z) : M unit := λ st,
  match bitset_set pos (bits (this st)) with
  | inr b => Ok () (with_this (with_bits b (this st)) st)
  | inl e => Throw e
  end.

(** [bits.test(pos)] *)
Definition bits_test (pos : Z) : M bool := λ st,
  match bitset_test pos (bits (this st)) with
  | inr r => Ok r st
  | inl e => Throw e
  end.

(** [size++] on a [long long] *)
Definition size_incr : M unit := λ st,
  Ok () (with_this (with_size (s64 (size (this st) + 1)) (this st)) st).

Definition write_cout (ts : list token) : M unit := λ st,
  Ok () {| this := this st; cout := cout st ++ ts; cerr := cerr st |}.

Definition write_cerr (ts : list token) : M unit := λ st,
  Ok () {| this := this st; cout := cout st; cerr := cerr st ++ ts |}.

(** [a && b]: the right operand is evaluated only when the left one is
    true. *)
Definition and_then (a b : M bool) : M bool := λ st,
  match a st with
  | Ok true st' => b st'
  | Ok false st' => Ok false st'
  | Throw e => Throw e
  end.

Section Methods.
Context {pf : Platform}.

(** The files of the run: [None] when [is_open()] is false, otherwise
    the lines that the [getline] loop reads. *)
Variable fs : string → option (list string).

(** Lines 104-112. *)
Definition add (s : string) : M unit :=
  bf ← get_this;
  let hash := polynomial_hash s (p bf) (m bf) in
  let hash2 := djb2 s mod u64 (m bf) in
  let hash3 := sdbm s mod u64 (m bf) in
  bits_set (hash mod bitset_size);;
  bits_set (hash2 mod bitset_size);;
  bits_set (hash3 mod bitset_size).

(** Lines 114-121. *)
Definition contains (s : string) : M bool :=
  bf ← get_this;
  let hash := polynomial_hash s (p bf) (m bf) in
  let hash2 := djb2 s mod u64 (m bf) in
  let hash3 := sdbm s mod u64 (m bf) in
  and_then
    (and_then (bits_test (hash mod bitset_size))
              (bits_test (hash2 mod bitset_size)))
    (bits_test (hash3 mod bitset_size)).

(** Lines 85-102.  The member initialisers, then the body. *)
Definition init (fname : string) : t :=
  {| p := 31; m := 1000000009; size := 0; filename := fname; bits := ∅ |}.

Fixpoint ctor_loop (lines : list string) : M unit :=
  match lines with
  | [] => mret ()
  | line :: rest => add line;; size_incr;; ctor_loop rest
  end.

Definition ctor_body (fname : string) : M unit :=
  match fs fname with
  | Some lines => ctor_loop lines
  | None => write_cerr [Str "Unable to open file: "; Str fname; Endl]
  end.

(** [BloomFilter bf(fname)] run with the streams [out] and [err]. *)
Definition new (fname : string) (out err : list token) : result unit :=
  ctor_body fname {| this := init fname; cout := out; cerr := err |}.

(** Lines 123-166. *)
Definition verdict (result : bool) : string :=
  if result then "possibly malicious" else "not malicious".

Fixpoint test_loop (lines : list string) (positives negatives : Z)
    (maliciousUrls : list string) : M (Z * Z * list string) :=
  match lines with
  | [] => mret (positives, negatives, maliciousUrls)
  | line :: rest =>
      result ← contains line;
      write_cout [Str "Checking "; Str line; Str " : "; Str (verdict result); Endl];;
      test_loop rest
        (s32 (positives + Z.b2z result))
        (s32 (negatives + Z.b2z (negb result)))
        (if result then maliciousUrls ++ [line] else maliciousUrls)
  end.

Fixpoint print_urls (urls : list string) : M unit :=
  match urls with
  | [] => mret ()
  | url :: rest => write_cout [Str url; Endl];; print_urls rest
  end.

Definition test (fname : string) : M unit :=
  '(positives, negatives, maliciousUrls) ←
    match fs fname with
    | Some lines => test_loop lines 0 0 []
    | None =>
        write_cerr [Str "Unable to open file: "; Str fname; Endl];;
        mret (0, 0, [])
    end;
  write_cout [Str "Total Positives: "; Int positives; Endl];;
  write_cout [Str "Total Negatives: "; Int negatives; Endl];;
  match maliciousUrls with
  | _ :: _ =>
      write_cout [Str (nl ++ "Malicious URLs:" ++ nl)];;
      print_urls maliciousUrls
  | [] => write_cout [Str (nl ++ "No malicious URLs found." ++ nl)]
  end.

(** Line 168: a copy of the bit array. *)
Definition get_bits : M (gset Z) :=
  bf ← get_this;
  mret (bits bf).

End Methods.

End BloomFilter.

Import BloomFilter.

(** ** Definitions used by the statements *)

Section Statements.
Context {pf : Platform}.

(** What the default member initialisers establish; no method assigns
    [p] or [m]. *)
Definition wf (bf : t) : Prop := p bf = 31 ∧ m bf = 1000000009.

(** The three positions of lines 106-111 and 116-120. *)
Definition index1 (bf : t) (s : string) : Z :=
  polynomial_hash s (p bf) (m bf) mod bitset_size.
Definition index2 (bf : t) (s : string) : Z :=
  (djb2 s mod u64 (m bf)) mod bitset_size.
Definition index3 (bf : t) (s : string) : Z :=
  (sdbm s mod u64 (m bf)) mod bitset_size.

Definition indices (bf : t) (s : string) : gset Z :=
  {[index1 bf s; index2 bf s; index3 bf s]}.

(** Every true bit is a position of the [bitset<1000001>]. *)
Definition in_capacity (b : gset Z) : Prop :=
  ∀ j, j ∈ b → 0 <= j < bitset_size.

(** A sequence of [add] calls. *)
Fixpoint add_all (l : list string) : M unit :=
  match l with
  | [] => mret ()
  | s :: l' => add s;; add_all l'
  end.

(** The recurrences as the specification words them: one step of DJB2
    and of SDBM on a 64-bit unsigned accumulator. *)
Definition djb2_spec (s : string) : Z :=
  fold_left (λ old c, (old * 33 + char_code c) mod 2 ^ 64)
            (list_ascii_of_string s) 5381.

Definition sdbm_spec (s : string) : Z :=
  fold_left (λ old c,
               (char_code c + Z.shiftl old 6 + Z.shiftl old 16 - old) mod 2 ^ 64)
            (list_ascii_of_string s) 0.

(** The polynomial as the specification words it: the sum over the
    positions [i] of [(char_code - 'a' + 1) * p^i], from position [i]
    on, and its reduction modulo [m]. *)
Fixpoint polynomial_sum (s : string) (p : Z) (i : Z) : Z :=
  match s with
  | EmptyString => 0
  | String c s' => (char_code c - 97 + 1) * p ^ i + polynomial_sum s' p (i + 1)
  end.

Definition polynomial_hash_spec (s : string) (p m : Z) : Z :=
  polynomial_sum s p 0 mod m.

(** Characters whose contribution [c - 'a' + 1] is not negative. *)
Fixpoint from_backquote (s : string) : Prop :=
  match s with
  | EmptyString => True
  | String c s' => 96 <= char_code c ∧ from_backquote s'
  end.

(** The answer of [contains] on a state, and the same answer read off
    the bit array. *)
Definition contains_result (st : state) (s : string) : bool :=
  match contains s st with
  | Ok r _ => r
  | Throw _ => false
  end.

Definition member (bf : t) (s : string) : bool :=
  bool_decide (index1 bf s ∈ bits bf)
  && bool_decide (index2 bf s ∈ bits bf)
  && bool_decide (index3 bf s ∈ bits bf).

(** The positions set by a sequence of [add] calls. *)
Definition all_indices (bf : t) (l : list string) : gset Z :=
  ⋃ (indices bf <$> l).

(** What [test] writes for a sequence of candidates: one line for each,
    the two totals, the matched candidates. *)
Definition matched (st : state) (lines : list string) : list string :=
  List.filter (contains_result st) lines.

Definition unmatched (st : state) (lines : list string) : list string :=
  List.filter (λ s, negb (contains_result st s)) lines.

Definition checking (st : state) (line : string) : list token :=
  [Str "Checking "; Str line; Str " : ";
   Str (verdict (contains_result st line)); Endl].

Definition url_lines (urls : list string) : list token :=
  flat_map (λ url, [Str url; Endl]) urls.

Definition totals (positives negatives : Z) (urls : list string) : list token :=
  [Str "Total Positives: "; Int positives; Endl;
   Str "Total Negatives: "; Int negatives; Endl]
  ++ match urls with
     | [] => [Str (nl ++ "No malicious URLs found." ++ nl)]
     | _ :: _ => Str (nl ++ "Malicious URLs:" ++ nl) :: url_lines urls
     end.

(** The bulk query reports the partition with its exact counts and
    leaves the object as it was. *)
Definition bulk_query_report (fs : string → option (list string))
    (fname : string) (lines : list string) (st : state) : Prop :=
  test fs fname st =
  Ok () {| this := this st;
           cout := cout st ++ flat_map (checking st) lines
                   ++ totals (Z.of_nat (length (matched st lines)))
                             (Z.of_nat (length (unmatched st lines)))
                             (matched st lines);
           cerr := cerr st |}.

End Statements.

(** A small run used to instantiate the statements: the known-bad list
    ["a"; "b"; "c"] and the candidates ["a"; "d"]. *)
Definition sample_files (fname : string) : option (list string) :=
  if String.eqb fname "malicious.csv" then Some ["a"; "b"; "c"]
  else if String.eqb fname "candidates.txt" then Some ["a"; "d"]
  else None.

Definition sample_state : state :=
  {| this := with_size 3 (with_bits {[1; 2; 3; 97; 98; 99; 177670; 177671; 177672]}
                                    (init "malicious.csv"));
     cout := []; cerr := [] |}.

(** ** int main(), lines 171-221 *)

(** What one turn of the menu loop obtains from [cin], whose extraction
    rules are the library's: either [cin >> choice] fails, or it yields
    a number, and [word] is what the [cin >> string] of turns 1 and 2
    then reads. *)
Inductive input :=
| NoNumber
| Choice (choice : Z) (word : string).

Section Main.
Context {pf : Platform}.
Variable fs : string → option (list string).

(** Lines 178-184.  [size()] of a [bitset<1000001>] is its template
    argument, whatever the bits are. *)
Definition menu : M unit :=
  write_cout [Str (nl ++ "--- Bloom Filter Menu ---" ++ nl)];;
  get_bits;;
  write_cout [Str "Bitset size: "; Int bitset_size; Str nl];;
  write_cout [Str ("Hash functions used: Polynomial Rolling, DJB2, SDBM" ++ nl)];;
  write_cout [Str ("1. Test a file" ++ nl)];;
  write_cout [Str ("2. Test a website string" ++ nl)];;
  write_cout [Str ("3. Exit" ++ nl)];;
  write_cout [Str "Enter your choice: "].

Definition website_verdict (result : bool) : string :=
  if result then "possibly malicious." else "not malicious.".

(** The loop of lines 176-218 over the turns of a finite script.  The
    result is [Some 0], the value [main] returns after [break], or
    [None] when the script ends with the loop still waiting at the
    prompt. *)
Fixpoint main_loop (script : list input) : M (option Z) :=
  match script with
  | [] => menu;; mret None
  | NoNumber :: rest =>
      menu;;
      write_cout [Str ("Invalid input. Please enter a number between 1 and 3." ++ nl)];;
      main_loop rest
  | Choice choice word :: rest =>
      menu;;
      if choice =? 1 then
        write_cout [Str "Enter the file name to test: "];;
        test fs word;;
        main_loop rest
      else if choice =? 2 then
        write_cout [Str "Enter the website URL to test: "];;
        contains word ≫= λ result : bool,
        write_cout [Str "The website "; Str word; Str " is ";
                    Str (website_verdict result); Endl];;
        main_loop rest
      else if choice =? 3 then mret (Some 0)
      else
        write_cout [Str ("Invalid choice. Please enter a number between 1 and 3." ++ nl)];;
        main_loop rest
  end.

(** Line 173, then the loop, with both streams empty at the start. *)
Definition main (script : list input) : result (option Z) :=
  match new fs "malicious.csv" [] [] with
  | Ok _ st => main_loop script st
  | Throw e => Throw e
  end.

End Main.

(** ** Definitions used by the further statements *)

Section FurtherStatements.
Context {pf : Platform}.

(** Strings of 7-bit characters. *)
Fixpoint ascii_only (s : string) : Prop :=
  match s with
  | EmptyString => True
  | String c s' => (N_of_ascii c < 128)%N ∧ ascii_only s'
  end.

(** The three positions of a string in a constructed filter. *)
Definition positions (s : string) : gset Z :=
  {[polynomial_hash s 31 1000000009 mod 1000001;
    (djb2 s mod 1000000009) mod 1000001;
    (sdbm s mod 1000000009) mod 1000001]}.

(** What [menu] writes at the head of every turn, lines 178-184. *)
Definition menu_text : list token :=
  [Str (nl ++ "--- Bloom Filter Menu ---" ++ nl);
   Str "Bitset size: "; Int bitset_size; Str nl;
   Str ("Hash functions used: Polynomial Rolling, DJB2, SDBM" ++ nl);
   Str ("1. Test a file" ++ nl);
   Str ("2. Test a website string" ++ nl);
   Str ("3. Exit" ++ nl);
   Str "Enter your choice: "].

(** The turn at which the menu loop leaves. *)
Definition is_exit (i : input) : bool :=
  match i with
  | Choice choice _ => choice =? 3
  | NoNumber => false
  end.

(** The turns the loop consumes: up to and including the first exit. *)
Fixpoint consumed (script : list input) : list input :=
  match script with
  | [] => []
  | i :: rest => if is_exit i then [i] else i :: consumed rest
  end.

End FurtherStatements.

Definition sample_script : list input :=
  [Choice 2 "a"; NoNumber; Choice 1 "candidates.txt"; Choice 7 ""; Choice 3 "";
   Choice 2 "d"].

(** ** Machine arithmetic *)

Lemma u64_range z : 0 <= u64 z < 2 ^ 64.
Proof. unfold u64. apply Z.mod_pos_bound. lia. Qed.

Lemma u64_small z : 0 <= z < 2 ^ 64 → u64 z = z.
Proof. intros. unfold u64. by apply Z.mod_small. Qed.

Lemma s64_small z : - 2 ^ 63 <= z < 2 ^ 63 → s64 z = z.
Proof. intros. unfold s64. rewrite Z.mod_small; lia. Qed.

Lemma s32_small z : - 2 ^ 31 <= z < 2 ^ 31 → s32 z = z.
Proof. intros. unfold s32. rewrite Z.mod_small; lia. Qed.

Lemma s32_succ z b : s32 (s32 z + b) = s32 (z + b).
Proof.
  unfold s32.
  replace ((z + 2 ^ 31) mod 2 ^ 32 - 2 ^ 31 + b + 2 ^ 31)
    with ((z + 2 ^ 31) mod 2 ^ 32 + b) by lia.
  rewrite Zplus_mod_idemp_l. do 2 f_equal. lia.
Qed.

Lemma s64_succ z b : s64 (s64 z + b) = s64 (z + b).
Proof.
  unfold s64.
  replace ((z + 2 ^ 63) mod 2 ^ 64 - 2 ^ 63 + b + 2 ^ 63)
    with ((z + 2 ^ 63) mod 2 ^ 64 + b) by lia.
  rewrite Zplus_mod_idemp_l. do 2 f_equal. lia.
Qed.

Lemma u64_add_l a b : u64 (u64 a + b) = u64 (a + b).
Proof. unfold u64. apply Zplus_mod_idemp_l. Qed.

Lemma u64_add_r a b : u64 (a + u64 b) = u64 (a + b).
Proof. unfold u64. apply Zplus_mod_idemp_r. Qed.

Lemma u64_sub_l a b : u64 (u64 a - b) = u64 (a - b).
Proof. unfold u64. apply Zminus_mod_idemp_l. Qed.

Lemma u64_m : u64 1000000009 = 1000000009.
Proof. reflexivity. Qed.

Lemma char_code_range `{Platform} c : -128 <= char_code c < 256.
Proof.
  unfold char_code.
  assert (0 <= Z.of_N (N_of_ascii c) < 256).
  { pose proof (N_ascii_bounded c). lia. }
  destruct (char_is_signed && (128 <=? Z.of_N (N_of_ascii c))) eqn:E; [|lia].
  apply andb_true_iff in E as [_ E]. lia.
Qed.

Lemma index_in_range z : 0 <= z mod bitset_size < bitset_size.
Proof. apply Z.mod_pos_bound. reflexivity. Qed.

Lemma bitset_set_mod z b :
  bitset_set (z mod bitset_size) b = inr ({[z mod bitset_size]} ∪ b).
Proof.
  unfold bitset_set. pose proof (index_in_range z).
  destruct (0 <=? z mod bitset_size) eqn:E1; [|lia].
  destruct (z mod bitset_size <? bitset_size) eqn:E2; [done|lia].
Qed.

Lemma bitset_test_mod z b :
  bitset_test (z mod bitset_size) b = inr (bool_decide (z mod bitset_size ∈ b)).
Proof.
  unfold bitset_test. pose proof (index_in_range z).
  destruct (0 <=? z mod bitset_size) eqn:E1; [|lia].
  destruct (z mod bitset_size <? bitset_size) eqn:E2; [done|lia].
Qed.

(** ** Running [add] and [contains] *)

Section Runs.
Context {pf : Platform}.

Lemma add_run st s :
  add s st =
  Ok () (with_this (with_bits (indices (this st) s ∪ bits (this st)) (this st)) st).
Proof.
  destruct st as [[p0 m0 sz fn b] out err].
  unfold add, mbind, M_bind, get_this, bits_set; simpl.
  rewrite !bitset_set_mod; simpl.
  unfold with_this, with_bits, indices, index1, index2, index3; simpl.
  do 2 f_equal. f_equal. set_solver.
Qed.

Lemma and_then_run (a b : M bool) st ra rb :
  a st = Ok ra st → b st = Ok rb st → and_then a b st = Ok (ra && rb) st.
Proof. intros Ha Hb. unfold and_then. rewrite Ha. destruct ra; [done|done]. Qed.

Lemma bits_test_run z st :
  bits_test (z mod bitset_size) st =
  Ok (bool_decide (z mod bitset_size ∈ bits (this st))) st.
Proof. unfold bits_test. by rewrite bitset_test_mod. Qed.

Lemma contains_run st s : contains s st = Ok (member (this st) s) st.
Proof.
  unfold contains, mbind, M_bind, get_this, member, index1, index2, index3.
  apply and_then_run; [apply and_then_run|]; apply bits_test_run.
Qed.

Lemma contains_result_member st s : contains_result st s = member (this st) s.
Proof. unfold contains_result. by rewrite contains_run. Qed.

Lemma member_subseteq bf s : member bf s = true ↔ indices bf s ⊆ bits bf.
Proof.
  unfold member, indices. rewrite !andb_true_iff, !bool_decide_eq_true.
  set_solver.
Qed.

Lemma indices_with_bits b bf s : indices (with_bits b bf) s = indices bf s.
Proof. reflexivity. Qed.

Lemma add_all_run l st :
  add_all l st =
  Ok () (with_this (with_bits (all_indices (this st) l ∪ bits (this st)) (this st)) st).
Proof.
  revert st. induction l as [|s l IH]; intros st.
  - destruct st as [[p0 m0 sz fn b] out err]. simpl.
    unfold mret, M_ret, with_this, with_bits, all_indices; simpl.
    do 2 f_equal. f_equal. set_solver.
  - simpl. unfold mbind, M_bind. rewrite add_run, IH.
    destruct st as [[p0 m0 sz fn b] out err].
    unfold with_this, with_bits, all_indices; simpl.
    do 2 f_equal. f_equal.
    change (indices {| p := p0; m := m0; size := sz; filename := fn;
                       bits := indices (mk p0 m0 sz fn b) s ∪ b |})
      with (indices (mk p0 m0 sz fn b)).
    set_solver.
Qed.

(** The methods keep the true bits within the capacity of the bitset. *)
Lemma add_in_capacity st st' s :
  in_capacity (bits (this st)) → add s st = Ok () st' →
  in_capacity (bits (this st')).
Proof.
  intros Hb. rewrite add_run. intros [= <-] j. simpl.
  unfold indices, index1, index2, index3.
  rewrite !elem_of_union, !elem_of_singleton.
  intros [[[->| ->]| ->]|Hj]; try apply index_in_range. by apply Hb.
Qed.

Lemma elem_of_all_indices bf l x :
  x ∈ all_indices bf l ↔ ∃ s, s ∈ l ∧ x ∈ indices bf s.
Proof.
  unfold all_indices. rewrite elem_of_union_list. split.
  - intros (X & HX & Hx). apply list_elem_of_fmap in HX as (s & -> & Hs). eauto.
  - intros (s & Hs & Hx). exists (indices bf s). split; [|done].
    apply list_elem_of_fmap. eauto.
Qed.

Lemma all_indices_same_elements bf (l l' : list string) :
  (∀ s, s ∈ l ↔ s ∈ l') → all_indices bf l = all_indices bf l'.
Proof.
  intros H. apply set_eq. intros x. rewrite !elem_of_all_indices.
  split; intros (s & Hs & Hx); exists s; split; try done; by apply H.
Qed.

End Runs.

(** ** The hash functions *)

Section HashFacts.
Context {pf : Platform}.

Lemma djb2_step_eq h c :
  u64 (u64 (u64 (Z.shiftl h 5) + h) + u64 (char_code c)) =
  (h * 33 + char_code c) mod 2 ^ 64.
Proof.
  change ((h * 33 + char_code c) mod 2 ^ 64) with (u64 (h * 33 + char_code c)).
  rewrite u64_add_r, u64_add_l, <- Z.add_assoc, u64_add_l.
  rewrite Z.shiftl_mul_pow2 by lia. f_equal. lia.
Qed.

Lemma sdbm_step_eq h c :
  u64 (u64 (u64 (u64 (char_code c) + u64 (Z.shiftl h 6)) + u64 (Z.shiftl h 16)) - h) =
  (char_code c + Z.shiftl h 6 + Z.shiftl h 16 - h) mod 2 ^ 64.
Proof.
  generalize (Z.shiftl h 6) (Z.shiftl h 16) (char_code c). intros a b k.
  unfold u64. Z.div_mod_to_equations. lia.
Qed.

Lemma djb2_loop_fold s h :
  djb2_loop s h =
  fold_left (λ old c, (old * 33 + char_code c) mod 2 ^ 64) (list_ascii_of_string s) h.
Proof.
  revert h. induction s as [|c s IH]; intros h; simpl; [done|].
  by rewrite djb2_step_eq, IH.
Qed.

Lemma sdbm_loop_fold s h :
  sdbm_loop s h =
  fold_left (λ old c,
               (char_code c + Z.shiftl old 6 + Z.shiftl old 16 - old) mod 2 ^ 64)
            (list_ascii_of_string s) h.
Proof.
  revert h. induction s as [|c s IH]; intros h; simpl; [done|].
  by rewrite sdbm_step_eq, IH.
Qed.

(** The result of the polynomial hash is a remainder of a division by
    [m]. *)
Lemma polynomial_hash_loop_range s hash p_pow :
  0 <= hash < 1000000009 →
  0 <= polynomial_hash_loop s 31 1000000009 hash p_pow < 1000000009.
Proof.
  revert hash p_pow. induction s as [|c s IH]; intros hash p_pow Hh; simpl; [done|].
  apply IH. rewrite u64_m. apply Z.mod_pos_bound. lia.
Qed.

Lemma polynomial_hash_range s :
  0 <= polynomial_hash s 31 1000000009 < 1000000009.
Proof. apply polynomial_hash_loop_range. lia. Qed.

(** On characters from ['`'] on, no operation of the loop wraps and the
    loop computes the polynomial. *)
Lemma polynomial_hash_loop_sum s hash i :
  from_backquote s → 0 <= i → 0 <= hash < 1000000009 →
  polynomial_hash_loop s 31 1000000009 hash (31 ^ i mod 1000000009) =
  (hash + polynomial_sum s 31 i) mod 1000000009.
Proof.
  revert hash i. induction s as [|c s IH]; intros hash i Hs Hi Hh; simpl.
  - rewrite Z.add_0_r. symmetry. by apply Z.mod_small.
  - destruct Hs as [Hc Hs].
    pose proof (char_code_range c) as Hr.
    pose proof (Z.mod_pos_bound (31 ^ i) 1000000009 eq_refl) as Hp.
    set (pw := 31 ^ i mod 1000000009) in *.
    assert (Ht : 0 <= (char_code c - 97 + 1) * pw < 160 * 1000000009) by nia.
    rewrite (s64_small ((char_code c - 97 + 1) * pw)) by lia.
    rewrite (u64_small ((char_code c - 97 + 1) * pw)) by lia.
    rewrite (u64_small (hash + _)) by lia.
    rewrite u64_m.
    rewrite (s64_small (pw * 31)) by lia.
    rewrite Z.rem_mod_nonneg by lia.
    replace ((pw * 31) mod 1000000009) with (31 ^ (i + 1) mod 1000000009).
    2:{ subst pw. rewrite Z.mul_mod_idemp_l by lia. f_equal.
        rewrite Z.pow_add_r by lia. lia. }
    rewrite IH; [|done|lia|apply Z.mod_pos_bound; lia].
    rewrite Zplus_mod_idemp_l. subst pw.
    pose proof (Z.div_mod (31 ^ i) 1000000009 ltac:(lia)) as Hd.
    generalize dependent (31 ^ i). intros P _ _ Hd.
    replace (hash + ((char_code c - 97 + 1) * P + polynomial_sum s 31 (i + 1)))
      with (hash + (char_code c - 97 + 1) * (P mod 1000000009)
            + polynomial_sum s 31 (i + 1)
            + ((char_code c - 97 + 1) * (P / 1000000009)) * 1000000009).
    + by rewrite Z_mod_plus_full.
    + rewrite Hd at 3. ring.
Qed.

Lemma polynomial_hash_from_backquote s :
  from_backquote s →
  polynomial_hash s 31 1000000009 = polynomial_hash_spec s 31 1000000009.
Proof.
  intros Hs. unfold polynomial_hash, polynomial_hash_spec.
  change 1 with (31 ^ 0 mod 1000000009).
  by rewrite polynomial_hash_loop_sum.
Qed.

(** C4. [djb2] is the fold from 5381 of [old * 33 + char_code] and
    [sdbm] the fold from 0 of
    [char_code + (old << 6) + (old << 16) - old], each step reduced
    modulo 2^64; both results are 64-bit unsigned values. *)
Theorem djb2_sdbm_recurrence s :
  djb2 s = djb2_spec s ∧ sdbm s = sdbm_spec s
  ∧ 0 <= djb2 s < 2 ^ 64 ∧ 0 <= sdbm s < 2 ^ 64.
Proof.
  assert (Hd : ∀ s h, 0 <= h < 2 ^ 64 → 0 <= djb2_loop s h < 2 ^ 64).
  { clear s. induction s as [|c s IH]; intros h Hh; simpl; [done|].
    apply IH, u64_range. }
  assert (Hs : ∀ s h, 0 <= h < 2 ^ 64 → 0 <= sdbm_loop s h < 2 ^ 64).
  { clear s. induction s as [|c s IH]; intros h Hh; simpl; [done|].
    apply IH, u64_range. }
  split_and!.
  - apply djb2_loop_fold.
  - apply sdbm_loop_fold.
  - apply Hd. lia.
  - apply Hd. lia.
  - apply Hs. lia.
  - apply Hs. lia.
Qed.

End HashFacts.

(** The wrap-around is reached: on a string of 13 characters the
    unreduced DJB2 value is above 2^64. *)
Example djb2_wraps :
  djb2 "www.evil.com/" = 11432453526945585316
  ∧ fold_left (λ old c, old * 33 + char_code c)
              (list_ascii_of_string "www.evil.com/") 5381
    = 296376822741744601847972.
Proof. split; vm_compute; reflexivity. Qed.

(** C3 on a character below ['a' - 1].  The contribution of ['A'] is
    [65 - 97 + 1 = -31]; added to the unsigned [hash] it becomes
    [2^64 - 31], whose remainder modulo [m] is not that of [-31]: the
    hash is 688856422 where the polynomial reduced modulo [m] is
    999999978.  The same happens on "evil.com", through its ['.']. *)
Theorem polynomial_hash_below_backquote (pf : Platform) :
  polynomial_hash "A" 31 1000000009 = 688856422
  ∧ polynomial_hash_spec "A" 31 1000000009 = 999999978
  ∧ (2 ^ 64 - 31) mod 1000000009 = 688856422
  ∧ polynomial_hash "evil.com" 31 1000000009 = 705470003
  ∧ polynomial_hash_spec "evil.com" 31 1000000009 = 16613550.
Proof. destruct pf as [[|]]; vm_compute; done. Qed.

(** ** Running the loops *)

Section Loops.
Context {pf : Platform}.
Variable fs : string → option (list string).

Lemma ctor_loop_run lines st z :
  size (this st) = s64 z →
  ctor_loop lines st =
  Ok () (with_this
           (with_size (s64 (z + Z.of_nat (length lines)))
              (with_bits (all_indices (this st) lines ∪ bits (this st)) (this st)))
           st).
Proof.
  revert st z. induction lines as [|line rest IH]; intros st z Hz.
  - destruct st as [[p0 m0 sz fn b] out err]. simpl in *.
    unfold mret, M_ret, with_this, with_size, with_bits, all_indices; simpl.
    rewrite Z.add_0_r, <- Hz. do 2 f_equal. f_equal. set_solver.
  - simpl ctor_loop. unfold mbind, M_bind. rewrite add_run. unfold size_incr.
    rewrite (IH _ (z + 1)).
    + destruct st as [[p0 m0 sz fn b] out err].
      unfold with_this, with_size, with_bits, all_indices; simpl.
      do 2 f_equal. f_equal; [f_equal; lia|].
      change (indices {| p := p0; m := m0; size := s64 (sz + 1); filename := fn;
                         bits := indices (mk p0 m0 sz fn b) line ∪ b |})
        with (indices (mk p0 m0 sz fn b)).
      set_solver.
    + destruct st as [[p0 m0 sz fn b] out err]. simpl in *.
      rewrite Hz. apply s64_succ.
Qed.

Lemma new_run fname lines out err :
  fs fname = Some lines →
  new fs fname out err =
  Ok () {| this := with_size (s64 (Z.of_nat (length lines)))
                     (with_bits (all_indices (init fname) lines) (init fname));
           cout := out; cerr := err |}.
Proof.
  intros Hf. unfold new, ctor_body. rewrite Hf.
  rewrite (ctor_loop_run _ _ 0) by reflexivity.
  unfold with_this, with_size, with_bits; simpl.
  do 2 f_equal. f_equal. set_solver.
Qed.

Lemma new_unopenable fname out err :
  fs fname = None →
  new fs fname out err =
  Ok () {| this := init fname; cout := out;
           cerr := err ++ [Str "Unable to open file: "; Str fname; Endl] |}.
Proof. intros Hf. unfold new, ctor_body. by rewrite Hf. Qed.

Lemma contains_result_this st st' s :
  this st' = this st → contains_result st' s = contains_result st s.
Proof. intros H. by rewrite !contains_result_member, H. Qed.

Lemma matched_this st st' lines :
  this st' = this st → matched st' lines = matched st lines.
Proof.
  intros H. unfold matched. apply filter_ext. intros s.
  by apply contains_result_this.
Qed.

Lemma unmatched_this st st' lines :
  this st' = this st → unmatched st' lines = unmatched st lines.
Proof.
  intros H. unfold unmatched. apply filter_ext. intros s.
  f_equal. by apply contains_result_this.
Qed.

Lemma checking_this st st' lines :
  this st' = this st → flat_map (checking st') lines = flat_map (checking st) lines.
Proof.
  intros H. apply flat_map_ext. intros s. unfold checking.
  by rewrite (contains_result_this st st').
Qed.

Lemma test_loop_run lines st P Q urls :
  test_loop lines (s32 P) (s32 Q) urls st =
  Ok (s32 (P + Z.of_nat (length (matched st lines))),
      s32 (Q + Z.of_nat (length (unmatched st lines))),
      urls ++ matched st lines)
     {| this := this st; cout := cout st ++ flat_map (checking st) lines;
        cerr := cerr st |}.
Proof.
  revert st P Q urls. induction lines as [|line rest IH]; intros st P Q urls.
  - destruct st as [bf out err]. simpl.
    unfold mret, M_ret. by rewrite !Z.add_0_r, !app_nil_r.
  - simpl test_loop. unfold mbind, M_bind. rewrite contains_run.
    unfold write_cout. rewrite !s32_succ.
    set (st' := {| this := this st; cout := _; cerr := cerr st |}).
    assert (Hthis : this st' = this st) by reflexivity.
    rewrite IH.
    rewrite (matched_this st st'), (unmatched_this st st'),
      (checking_this st st') by done.
    unfold matched, unmatched, checking; simpl.
    rewrite contains_result_member.
    destruct (member (this st) line); simpl;
      rewrite <- ?app_assoc; simpl; do 3 f_equal; f_equal; lia.
Qed.

Lemma print_urls_run urls st :
  print_urls urls st =
  Ok () {| this := this st; cout := cout st ++ url_lines urls; cerr := cerr st |}.
Proof.
  revert st. induction urls as [|url rest IH]; intros st.
  - destruct st as [bf out err]. simpl. unfold mret, M_ret. by rewrite app_nil_r.
  - simpl print_urls. unfold mbind, M_bind, write_cout. rewrite IH. simpl.
    by rewrite <- app_assoc.
Qed.

(** [test] on a readable file, with the counters as the [int]s they are. *)
Lemma test_run fname lines st :
  fs fname = Some lines →
  test fs fname st =
  Ok () {| this := this st;
           cout := cout st ++ flat_map (checking st) lines
                   ++ totals (s32 (Z.of_nat (length (matched st lines))))
                             (s32 (Z.of_nat (length (unmatched st lines))))
                             (matched st lines);
           cerr := cerr st |}.
Proof.
  intros Hf. unfold test, mbind, M_bind. rewrite Hf.
  change 0 with (s32 0) at 1 2. rewrite test_loop_run.
  cbv beta iota. unfold write_cout at 1 2. cbv beta iota. unfold totals.
  cbn [app]. rewrite !Z.add_0_l.
  destruct (matched st lines) as [|url urls]; cbv beta iota.
  - unfold write_cout; simpl. by rewrite <- !app_assoc.
  - unfold write_cout. cbv beta match. rewrite print_urls_run. simpl.
    by rewrite <- !app_assoc.
Qed.

Lemma test_unopenable fname st :
  fs fname = None →
  test fs fname st =
  Ok () {| this := this st; cout := cout st ++ totals 0 0 [];
           cerr := cerr st ++ [Str "Unable to open file: "; Str fname; Endl] |}.
Proof.
  intros Hf. unfold test, mbind, M_bind. rewrite Hf.
  unfold write_cerr, write_cout, mret, M_ret; simpl.
  by rewrite <- !app_assoc.
Qed.

End Loops.

(** ** The properties of the filter *)

Section Properties.
Context {pf : Platform}.

Lemma wf_with_bits b bf : wf bf → wf (with_bits b bf).
Proof. by intros [??]. Qed.

Lemma wf_indices bf s :
  wf bf →
  indices bf s =
  {[polynomial_hash s 31 1000000009 mod 1000001;
    (djb2 s mod 1000000009) mod 1000001;
    (sdbm s mod 1000000009) mod 1000001]}.
Proof.
  destruct bf as [p0 m0 sz fn b]. intros [Hp Hm]. simpl in Hp, Hm. subst.
  reflexivity.
Qed.

(** C1. No false negatives: on every state of the filter, [contains s]
    answers true right after [add s], and still answers true after any
    further sequence [l] of [add] calls. *)
Theorem no_false_negatives st s l :
  wf (this st) →
  (∃ st1, (add s;; contains s) st = Ok true st1)
  ∧ (∃ st2, (add s;; add_all l;; contains s) st = Ok true st2).
Proof.
  intros Hwf. split.
  - eexists. unfold mbind, M_bind. rewrite add_run, contains_run.
    f_equal. apply member_subseteq. simpl. rewrite indices_with_bits.
    set_solver.
  - eexists. unfold mbind, M_bind. rewrite add_run, add_all_run, contains_run.
    f_equal. apply member_subseteq. simpl. rewrite !indices_with_bits.
    set_solver.
Qed.

(** C2. [add s] succeeds on every string and sets exactly the bits at
    [polynomial_hash s p m mod N], [(djb2 s mod m) mod N] and
    [(sdbm s mod m) mod N], with [N = 1000001], leaving every other bit
    and everything else as it was; [contains s] answers true exactly when
    these three bits are set, and changes nothing. *)
Theorem add_contains_indices st s :
  wf (this st) →
  let i1 := polynomial_hash s 31 1000000009 mod 1000001 in
  let i2 := (djb2 s mod 1000000009) mod 1000001 in
  let i3 := (sdbm s mod 1000000009) mod 1000001 in
  (∃ st', add s st = Ok () st'
          ∧ st' = with_this (with_bits (bits (this st')) (this st)) st
          ∧ ∀ j, j ∈ bits (this st') ↔
                 j = i1 ∨ j = i2 ∨ j = i3 ∨ j ∈ bits (this st))
  ∧ (∃ r, contains s st = Ok r st
          ∧ (r = true ↔
             i1 ∈ bits (this st) ∧ i2 ∈ bits (this st) ∧ i3 ∈ bits (this st))).
Proof.
  intros Hwf i1 i2 i3. split.
  - eexists. split; [apply add_run|]. split; [done|].
    intros j. simpl. rewrite (wf_indices _ s Hwf). fold i1 i2 i3. set_solver.
  - eexists. split; [apply contains_run|].
    rewrite member_subseteq, (wf_indices _ s Hwf). fold i1 i2 i3. set_solver.
Qed.

(** C5. On a filter that was just constructed without any [add] (the
    file could not be opened, or had no line) every bit is false and
    [contains s] answers false for every string [s], so in particular
    for every non-empty one. *)
Theorem empty_filter_negative fs fname out err s :
  fs fname = None ∨ fs fname = Some [] →
  ∃ st, new fs fname out err = Ok () st
        ∧ bits (this st) = ∅
        ∧ contains s st = Ok false st.
Proof.
  intros [Hf|Hf].
  - eexists. split; [by apply new_unopenable|]. split; [done|].
    rewrite contains_run. reflexivity.
  - eexists. split; [unfold new, ctor_body; by rewrite Hf|]. split; [done|].
    rewrite contains_run. reflexivity.
Qed.

(** C6. The bit array depends only on the set of strings added:
    repeating [add s] any number of times gives the state of a single
    call, and two sequences of [add] calls that are permutations of each
    other, or more generally have the same elements, give the same state,
    hence the same set of true-bit indices. *)
Theorem add_idempotent_order_independent st :
  wf (this st) →
  (∀ s n, add_all (repeat s (S n)) st = add s st)
  ∧ (∀ l l', l ≡ₚ l' → add_all l st = add_all l' st)
  ∧ (∀ l l', (∀ s, s ∈ l ↔ s ∈ l') → add_all l st = add_all l' st).
Proof.
  intros _.
  assert (Hset : ∀ l l', (∀ s, s ∈ l ↔ s ∈ l') → add_all l st = add_all l' st).
  { intros l l' H. rewrite !add_all_run.
    by rewrite (all_indices_same_elements _ l l' H). }
  split; [|split; [|done]].
  - intros s n. rewrite add_all_run, add_run.
    replace (all_indices (this st) (repeat s (S n))) with (indices (this st) s);
      [done|].
    apply set_eq. intros x. rewrite elem_of_all_indices. split.
    + intros Hx. exists s. split; [left|done].
    + intros (s' & Hs' & Hx). apply list_elem_of_In, repeat_spec in Hs'.
      by subst.
  - intros l l' H. apply Hset. intros s. by rewrite H.
Qed.

Lemma filter_repeat_true {A} (f : A → bool) x n :
  f x = true → List.filter f (repeat x n) = repeat x n.
Proof. intros H. induction n as [|n IH]; simpl; [done|]. by rewrite H, IH. Qed.

Lemma filter_repeat_false {A} (f : A → bool) x n :
  f x = false → List.filter f (repeat x n) = [].
Proof. intros H. induction n as [|n IH]; simpl; [done|]. by rewrite H, IH. Qed.

(** X16. The bulk query on every sequence of candidates: [test] prints
    for each candidate, in order, the answer of [contains], then two
    totals, then the matched candidates in order; it writes nothing to
    the error stream and leaves the object as it was, and every
    candidate is on exactly one side.  The total of a side that has at
    most [INT_MAX] candidates is their number. *)
Theorem bulk_query_every_sequence fs fname lines st :
  wf (this st) →
  fs fname = Some lines →
  (∃ positives negatives,
     test fs fname st =
     Ok () {| this := this st;
              cout := cout st ++ flat_map (checking st) lines
                      ++ totals positives negatives (matched st lines);
              cerr := cerr st |}
     ∧ (Z.of_nat (length (matched st lines)) <= INT_MAX →
        positives = Z.of_nat (length (matched st lines)))
     ∧ (Z.of_nat (length (unmatched st lines)) <= INT_MAX →
        negatives = Z.of_nat (length (unmatched st lines))))
  ∧ (∀ s, contains s st = Ok (contains_result st s) st)
  ∧ (length (matched st lines) + length (unmatched st lines) = length lines)%nat
  ∧ (Z.of_nat (length (matched st lines)) <= INT_MAX →
     Z.of_nat (length (unmatched st lines)) <= INT_MAX →
     bulk_query_report fs fname lines st).
Proof.
  intros _ Hf. split_and!.
  - eexists _, _. split; [apply (test_run fs fname lines st Hf)|].
    unfold INT_MAX. split; intros H; apply s32_small; lia.
  - intros s. by rewrite contains_run, contains_result_member.
  - apply List.filter_length.
  - intros Hp Hn. unfold bulk_query_report. rewrite (test_run fs fname lines st Hf).
    unfold INT_MAX in *. rewrite !s32_small by lia. done.
Qed.

(** C8. When the file cannot be opened the failure is written to the
    error stream and the loop over its lines is skipped: the constructor
    yields the empty filter with count zero, and [test] leaves the filter
    as it was, printing only totals of zero. *)
Theorem unopenable_file_atomic fs fname :
  fs fname = None →
  (∀ out err,
     new fs fname out err =
     Ok () {| this := init fname; cout := out;
              cerr := err ++ [Str "Unable to open file: "; Str fname; Endl] |})
  ∧ bits (init fname) = ∅ ∧ size (init fname) = 0
  ∧ (∀ st,
       test fs fname st =
       Ok () {| this := this st; cout := cout st ++ totals 0 0 [];
                cerr := cerr st ++ [Str "Unable to open file: "; Str fname; Endl] |}).
Proof.
  intros Hf. split; [|split; [done|split; [done|]]].
  - intros out err. by apply new_unopenable.
  - intros st. by apply test_unopenable.
Qed.

(** C9. The polynomial hash and SDBM of the empty string are both 0 and
    its DJB2 index is 5381, so [add] on the empty string sets the two
    distinct bits 0 and 5381, and no third one. *)
Theorem add_empty_string st :
  wf (this st) →
  polynomial_hash "" 31 1000000009 = 0
  ∧ sdbm "" = 0
  ∧ (djb2 "" mod 1000000009) mod 1000001 = 5381
  ∧ add "" st = Ok () (with_this (with_bits ({[0; 5381]} ∪ bits (this st)) (this st)) st)
  ∧ base.size ({[0; 5381]} : gset Z) = 2%nat.
Proof.
  intros Hwf. split_and!; [reflexivity|reflexivity|reflexivity|..].
  - rewrite add_run, (wf_indices _ "" Hwf).
    replace ({[polynomial_hash "" 31 1000000009 mod 1000001;
               (djb2 "" mod 1000000009) mod 1000001;
               (sdbm "" mod 1000000009) mod 1000001]} : gset Z)
      with ({[0; 5381]} : gset Z); [done|].
    change ({[0; 5381]} = ({[0; 5381; 0]} : gset Z)). set_solver.
  - rewrite size_union by set_solver. by rewrite !size_singleton.
Qed.

(** C10. [add] changes the bit array only: the count, the parameters
    [p] and [m], the file name and the streams stay as they were;
    [contains] and [test] leave the whole object as it was; the count is
    what the constructor's loop over the lines of its file made it. *)
Theorem methods_frame fs st :
  wf (this st) →
  (∀ s, ∃ st', add s st = Ok () st'
               ∧ size (this st') = size (this st)
               ∧ p (this st') = p (this st) ∧ m (this st') = m (this st)
               ∧ filename (this st') = filename (this st)
               ∧ cout st' = cout st ∧ cerr st' = cerr st)
  ∧ (∀ s, ∃ r, contains s st = Ok r st)
  ∧ (∀ fname, ∃ st', test fs fname st = Ok () st' ∧ this st' = this st)
  ∧ (∀ fname lines out err,
       fs fname = Some lines →
       ∃ st0, new fs fname out err = Ok () st0
              ∧ size (this st0) = s64 (Z.of_nat (length lines))
              ∧ (Z.of_nat (length lines) < 2 ^ 63 →
                 size (this st0) = Z.of_nat (length lines))
              ∧ ∀ s, ∃ st', add s st0 = Ok () st'
                            ∧ size (this st') = size (this st0)).
Proof.
  intros _. split; [|split; [|split]].
  - intros s. eexists. split; [apply add_run|]. by destruct st as [[] ??].
  - intros s. eexists. apply contains_run.
  - intros fname. destruct (fs fname) as [lines|] eqn:Hf.
    + eexists. split; [by apply test_run|done].
    + eexists. split; [by apply test_unopenable|done].
  - intros fname lines out err Hf. eexists. split; [by apply new_run|].
    split; [done|]. split.
    + intros Hlt. simpl. apply s64_small. lia.
    + intros s. eexists. split; [apply add_run|done].
Qed.

End Properties.

(** ** The statements on the sample run *)

Example sample_state_built :
  new sample_files "malicious.csv" [] [] = Ok () sample_state.
Proof. vm_compute. reflexivity. Qed.

Example sample_bulk_query :
  test sample_files "candidates.txt" sample_state =
  Ok () {| this := this sample_state;
           cout := [Str "Checking "; Str "a"; Str " : "; Str "possibly malicious"; Endl;
                    Str "Checking "; Str "d"; Str " : "; Str "not malicious"; Endl;
                    Str "Total Positives: "; Int 1; Endl;
                    Str "Total Negatives: "; Int 1; Endl;
                    Str (nl ++ "Malicious URLs:" ++ nl); Str "a"; Endl];
           cerr := [] |}.
Proof. vm_compute. reflexivity. Qed.

Lemma no_false_negatives_witness :
  wf (this sample_state)
  ∧ (∃ st1, (add "evil.com";; contains "evil.com") sample_state = Ok true st1)
  ∧ (∃ st2, (add "evil.com";; add_all ["safe.com"; "a"];; contains "evil.com")
              sample_state = Ok true st2).
Proof.
  assert (H : wf (this sample_state)) by (split; reflexivity).
  split; [exact H|].
  exact (no_false_negatives sample_state "evil.com" ["safe.com"; "a"] H).
Defined.

Lemma add_contains_indices_witness :
  wf (this sample_state)
  ∧ (∃ st', add "ab" sample_state = Ok () st'
            ∧ st' = with_this (with_bits (bits (this st')) (this sample_state))
                              sample_state
            ∧ ∀ j, j ∈ bits (this st') ↔
                   j = polynomial_hash "ab" 31 1000000009 mod 1000001
                   ∨ j = (djb2 "ab" mod 1000000009) mod 1000001
                   ∨ j = (sdbm "ab" mod 1000000009) mod 1000001
                   ∨ j ∈ bits (this sample_state))
  ∧ (∃ r, contains "ab" sample_state = Ok r sample_state
          ∧ (r = true ↔
             polynomial_hash "ab" 31 1000000009 mod 1000001 ∈ bits (this sample_state)
             ∧ (djb2 "ab" mod 1000000009) mod 1000001 ∈ bits (this sample_state)
             ∧ (sdbm "ab" mod 1000000009) mod 1000001 ∈ bits (this sample_state))).
Proof.
  assert (H : wf (this sample_state)) by (split; reflexivity).
  split; [exact H|].
  exact (add_contains_indices sample_state "ab" H).
Defined.

Lemma empty_filter_negative_witness :
  (sample_files "missing.csv" = None ∨ sample_files "missing.csv" = Some [])
  ∧ ∃ st, new sample_files "missing.csv" [] [] = Ok () st
          ∧ bits (this st) = ∅
          ∧ contains "safe.com" st = Ok false st.
Proof.
  assert (H : sample_files "missing.csv" = None ∨ sample_files "missing.csv" = Some [])
    by (left; reflexivity).
  split; [exact H|].
  exact (empty_filter_negative sample_files "missing.csv" [] [] "safe.com" H).
Defined.

Lemma add_idempotent_order_independent_witness :
  wf (this sample_state)
  ∧ (∀ s n, add_all (repeat s (S n)) sample_state = add s sample_state)
  ∧ (∀ l l', l ≡ₚ l' → add_all l sample_state = add_all l' sample_state)
  ∧ (∀ l l', (∀ s, s ∈ l ↔ s ∈ l') →
             add_all l sample_state = add_all l' sample_state).
Proof.
  assert (H : wf (this sample_state)) by (split; reflexivity).
  split; [exact H|].
  exact (add_idempotent_order_independent sample_state H).
Defined.

Lemma bulk_query_every_sequence_witness :
  wf (this sample_state)
  ∧ sample_files "candidates.txt" = Some ["a"; "d"]
  ∧ (∃ positives negatives,
       test sample_files "candidates.txt" sample_state =
       Ok () {| this := this sample_state;
                cout := cout sample_state
                        ++ flat_map (checking sample_state) ["a"; "d"]
                        ++ totals positives negatives (matched sample_state ["a"; "d"]);
                cerr := cerr sample_state |}
       ∧ (Z.of_nat (length (matched sample_state ["a"; "d"])) <= INT_MAX →
          positives = Z.of_nat (length (matched sample_state ["a"; "d"])))
       ∧ (Z.of_nat (length (unmatched sample_state ["a"; "d"])) <= INT_MAX →
          negatives = Z.of_nat (length (unmatched sample_state ["a"; "d"]))))
  ∧ (∀ s, contains s sample_state = Ok (contains_result sample_state s) sample_state)
  ∧ (length (matched sample_state ["a"; "d"])
     + length (unmatched sample_state ["a"; "d"]) = length ["a"; "d"])%nat
  ∧ (Z.of_nat (length (matched sample_state ["a"; "d"])) <= INT_MAX →
     Z.of_nat (length (unmatched sample_state ["a"; "d"])) <= INT_MAX →
     bulk_query_report sample_files "candidates.txt" ["a"; "d"] sample_state).
Proof.
  assert (H : wf (this sample_state)) by (split; reflexivity).
  assert (Hf : sample_files "candidates.txt" = Some ["a"; "d"]) by reflexivity.
  split; [exact H|]. split; [exact Hf|].
  exact (bulk_query_every_sequence sample_files "candidates.txt" ["a"; "d"]
           sample_state H Hf).
Defined.

Lemma unopenable_file_atomic_witness :
  sample_files "missing.csv" = None
  ∧ (∀ out err,
       new sample_files "missing.csv" out err =
       Ok () {| this := init "missing.csv"; cout := out;
                cerr := err ++ [Str "Unable to open file: "; Str "missing.csv"; Endl] |})
  ∧ bits (init "missing.csv") = ∅ ∧ size (init "missing.csv") = 0
  ∧ (∀ st,
       test sample_files "missing.csv" st =
       Ok () {| this := this st; cout := cout st ++ totals 0 0 [];
                cerr := cerr st
                        ++ [Str "Unable to open file: "; Str "missing.csv"; Endl] |}).
Proof.
  assert (H : sample_files "missing.csv" = None) by reflexivity.
  split; [exact H|].
  exact (unopenable_file_atomic sample_files "missing.csv" H).
Defined.

Lemma add_empty_string_witness :
  wf (this sample_state)
  ∧ polynomial_hash "" 31 1000000009 = 0
  ∧ sdbm "" = 0
  ∧ (djb2 "" mod 1000000009) mod 1000001 = 5381
  ∧ add "" sample_state
    = Ok () (with_this (with_bits ({[0; 5381]} ∪ bits (this sample_state))
                                  (this sample_state)) sample_state)
  ∧ base.size ({[0; 5381]} : gset Z) = 2%nat.
Proof.
  assert (H : wf (this sample_state)) by (split; reflexivity).
  split; [exact H|].
  exact (add_empty_string sample_state H).
Defined.

Lemma methods_frame_witness :
  wf (this sample_state)
  ∧ (∀ s, ∃ st', add s sample_state = Ok () st'
                 ∧ size (this st') = size (this sample_state)
                 ∧ p (this st') = p (this sample_state)
                 ∧ m (this st') = m (this sample_state)
                 ∧ filename (this st') = filename (this sample_state)
                 ∧ cout st' = cout sample_state ∧ cerr st' = cerr sample_state)
  ∧ (∀ s, ∃ r, contains s sample_state = Ok r sample_state)
  ∧ (∀ fname, ∃ st', test sample_files fname sample_state = Ok () st'
                     ∧ this st' = this sample_state)
  ∧ (∀ fname lines out err,
       sample_files fname = Some lines →
       ∃ st0, new sample_files fname out err = Ok () st0
              ∧ size (this st0) = s64 (Z.of_nat (length lines))
              ∧ (Z.of_nat (length lines) < 2 ^ 63 →
                 size (this st0) = Z.of_nat (length lines))
              ∧ ∀ s, ∃ st', add s st0 = Ok () st'
                            ∧ size (this st') = size (this st0)).
Proof.
  assert (H : wf (this sample_state)) by (split; reflexivity).
  split; [exact H|].
  exact (methods_frame sample_files sample_state H).
Defined.

(** [n] candidates that all fail to match, with [n] one more than
    [INT_MAX], on the filter left empty by an unopenable file. *)
Lemma bulk_query_counts_wrap n :
  Z.of_nat n = 2147483648 →
  let lines := repeat "" n in
  let fs := λ fname : string,
              if String.eqb fname "candidates.txt" then Some lines else None in
  let st := {| this := init "malicious.csv"; cout := [];
               cerr := [Str "Unable to open file: "; Str "malicious.csv"; Endl] |} in
  new fs "malicious.csv" [] [] = Ok () st
  ∧ (∀ s, s ∈ lines → contains s st = Ok false st)
  ∧ Z.of_nat (length (unmatched st lines)) = 2147483648
  ∧ (∃ positives negatives,
       test fs "candidates.txt" st =
       Ok () {| this := this st;
                cout := flat_map (checking st) lines ++ totals positives negatives [];
                cerr := cerr st |}
       ∧ - 2 ^ 31 <= negatives <= INT_MAX)
  ∧ ¬ bulk_query_report fs "candidates.txt" lines st.
Proof.
  intros Hn lines fs st.
  assert (Hnew : new fs "malicious.csv" [] [] = Ok () st) by reflexivity.
  assert (Hfalse : ∀ s, s ∈ lines → contains s st = Ok false st).
  { intros s Hs. apply list_elem_of_In, repeat_spec in Hs. subst s.
    rewrite contains_run. reflexivity. }
  assert (Hm : matched st lines = []).
  { apply filter_repeat_false. by vm_compute. }
  assert (Hu : unmatched st lines = lines).
  { apply filter_repeat_true. by vm_compute. }
  assert (Hlen : Z.of_nat (length lines) = 2147483648).
  { unfold lines. by rewrite repeat_length. }
  assert (Hf : fs "candidates.txt" = Some lines) by reflexivity.
  clearbody fs lines.
  pose proof (test_run fs "candidates.txt" lines st Hf) as Hrun.
  rewrite Hm, Hu, Hlen in Hrun.
  change (s32 (Z.of_nat (length []))) with 0 in Hrun.
  split; [done|]. split; [done|]. split; [by rewrite Hu|]. split.
  - eexists _, _. split; [exact Hrun|]. by vm_compute.
  - unfold bulk_query_report. rewrite Hrun, Hm, Hu, Hlen.
    intros Heq. injection Heq as Heq. apply app_inv_head in Heq.
    unfold totals in Heq. simpl in Heq. injection Heq as Heq.
    revert Heq. by vm_compute.
Qed.

(** C7 fails on long inputs.  The malicious list could not be opened,
    so the filter is empty, and the candidates are 2^31 empty lines:
    every answer of [contains] is false, the number of false answers is
    2147483648, and the total that [test] prints is the [int]
    [negatives], which cannot be above [INT_MAX] (the increment that
    would take it there overflows; the two's-complement result is
    -2147483648).  The report of the claim is not what [test] writes. *)
Lemma bulk_query_counts_overflow :
  let lines := repeat "" (Z.to_nat 2147483648) in
  let fs := λ fname : string,
              if String.eqb fname "candidates.txt" then Some lines else None in
  let st := {| this := init "malicious.csv"; cout := [];
               cerr := [Str "Unable to open file: "; Str "malicious.csv"; Endl] |} in
  new fs "malicious.csv" [] [] = Ok () st
  ∧ (∀ s, s ∈ lines → contains s st = Ok false st)
  ∧ Z.of_nat (length (unmatched st lines)) = 2147483648
  ∧ (∃ positives negatives,
       test fs "candidates.txt" st =
       Ok () {| this := this st;
                cout := flat_map (checking st) lines ++ totals positives negatives [];
                cerr := cerr st |}
       ∧ - 2 ^ 31 <= negatives <= INT_MAX)
  ∧ ¬ bulk_query_report fs "candidates.txt" lines st.
Proof.
  exact (bulk_query_counts_wrap (Z.to_nat 2147483648)
           (Z2Nat.id 2147483648 (Z.lt_le_incl 0 2147483648 eq_refl))).
Qed.

(** ** Further properties of the hash functions *)

Lemma char_code_ascii (pf1 pf2 : Platform) c :
  (N_of_ascii c < 128)%N → @char_code pf1 c = @char_code pf2 c.
Proof.
  intros Hc. unfold char_code.
  replace (128 <=? Z.of_N (N_of_ascii c)) with false
    by (symmetry; apply Z.leb_gt; lia).
  by rewrite !andb_false_r.
Qed.

Lemma polynomial_hash_loop_ascii (pf1 pf2 : Platform) s p m hash p_pow :
  ascii_only s →
  @polynomial_hash_loop pf1 s p m hash p_pow =
  @polynomial_hash_loop pf2 s p m hash p_pow.
Proof.
  revert hash p_pow. induction s as [|c s IH]; intros hash p_pow Hs; simpl; [done|].
  destruct Hs as [Hc Hs]. rewrite (char_code_ascii pf1 pf2 c Hc). by apply IH.
Qed.

Lemma djb2_loop_ascii (pf1 pf2 : Platform) s hash :
  ascii_only s → @djb2_loop pf1 s hash = @djb2_loop pf2 s hash.
Proof.
  revert hash. induction s as [|c s IH]; intros hash Hs; simpl; [done|].
  destruct Hs as [Hc Hs]. rewrite (char_code_ascii pf1 pf2 c Hc). by apply IH.
Qed.

Lemma sdbm_loop_ascii (pf1 pf2 : Platform) s hash :
  ascii_only s → @sdbm_loop pf1 s hash = @sdbm_loop pf2 s hash.
Proof.
  revert hash. induction s as [|c s IH]; intros hash Hs; simpl; [done|].
  destruct Hs as [Hc Hs]. rewrite (char_code_ascii pf1 pf2 c Hc). by apply IH.
Qed.

(** X1. Whatever the characters of the string, the polynomial hash with
    the filter's parameters is a remainder modulo [m]: it lies in
    [0, 1000000009). *)
Theorem polynomial_hash_in_range (pf : Platform) s :
  0 <= polynomial_hash s 31 1000000009 < 1000000009.
Proof. apply polynomial_hash_range. Qed.

(** X2. On a string whose characters all have a code of at least 96
    (the lower-case letters among them) no operation of the loop wraps,
    and the hash is the polynomial with the digits [c - 'a' + 1] in base
    31, reduced modulo [m]. *)
Theorem polynomial_hash_is_polynomial (pf : Platform) s :
  from_backquote s →
  polynomial_hash s 31 1000000009 = polynomial_sum s 31 0 mod 1000000009.
Proof. apply polynomial_hash_from_backquote. Qed.

(** X3. SDBM is the multiplicative hash of the comment above it: each
    character turns [hash] into [hash * 65599 + c], modulo 2^64. *)
Theorem sdbm_multiplier_65599 (pf : Platform) s :
  sdbm s =
  fold_left (λ old c, (old * 65599 + char_code c) mod 2 ^ 64)
            (list_ascii_of_string s) 0.
Proof.
  unfold sdbm. generalize 0. induction s as [|c s IH]; intros h; simpl; [done|].
  rewrite IH. f_equal. rewrite sdbm_step_eq, !Z.shiftl_mul_pow2 by lia.
  f_equal. lia.
Qed.

(** X4. On strings of 7-bit characters the three hashes, and so the
    three positions of the string in the bit array, do not depend on
    whether [char] is signed. *)
Theorem hashes_ascii_portable (pf1 pf2 : Platform) s :
  ascii_only s →
  (∀ p m, @polynomial_hash pf1 s p m = @polynomial_hash pf2 s p m)
  ∧ @djb2 pf1 s = @djb2 pf2 s
  ∧ @sdbm pf1 s = @sdbm pf2 s
  ∧ @positions pf1 s = @positions pf2 s.
Proof.
  intros Hs.
  assert (H1 : ∀ p m, @polynomial_hash pf1 s p m = @polynomial_hash pf2 s p m).
  { intros p m. by apply polynomial_hash_loop_ascii. }
  assert (H2 : @djb2 pf1 s = @djb2 pf2 s) by by apply djb2_loop_ascii.
  assert (H3 : @sdbm pf1 s = @sdbm pf2 s) by by apply sdbm_loop_ascii.
  split_and!; try done. unfold positions. by rewrite H1, H2, H3.
Qed.

(** X5. The character ['`'] is the digit zero of the polynomial hash: a
    trailing ['`'] does not change the hash, so [s] and [s] followed by
    ['`'] always share their first position. *)
Theorem polynomial_hash_trailing_backquote (pf : Platform) s :
  polynomial_hash (s ++ "`") 31 1000000009 = polynomial_hash s 31 1000000009.
Proof.
  unfold polynomial_hash.
  assert (H : ∀ s hash p_pow, 0 <= hash < 1000000009 →
              polynomial_hash_loop (s ++ "`") 31 1000000009 hash p_pow =
              polynomial_hash_loop s 31 1000000009 hash p_pow).
  { clear s. induction s as [|c s IH]; intros hash p_pow Hh.
    - simpl. replace (char_code "`") with 96 by (by destruct pf as [[|]]).
      change (96 - 97 + 1) with 0. rewrite Z.mul_0_l.
      change (u64 (s64 0)) with 0. rewrite Z.add_0_r, u64_m.
      rewrite u64_small by lia. apply Z.mod_small. lia.
    - simpl. apply IH. rewrite u64_m. apply Z.mod_pos_bound. lia. }
  apply H. lia.
Qed.

Lemma polynomial_hash_is_polynomial_witness :
  from_backquote "abc"
  ∧ polynomial_hash "abc" 31 1000000009 = polynomial_sum "abc" 31 0 mod 1000000009.
Proof.
  assert (H : from_backquote "abc") by (vm_compute; intuition discriminate).
  split; [exact H|].
  exact (polynomial_hash_is_polynomial x86_64 "abc" H).
Defined.

Lemma hashes_ascii_portable_witness :
  ascii_only "evil.com"
  ∧ (∀ p m, @polynomial_hash x86_64 "evil.com" p m = @polynomial_hash aarch64 "evil.com" p m)
  ∧ @djb2 x86_64 "evil.com" = @djb2 aarch64 "evil.com"
  ∧ @sdbm x86_64 "evil.com" = @sdbm aarch64 "evil.com"
  ∧ @positions x86_64 "evil.com" = @positions aarch64 "evil.com".
Proof.
  assert (H : ascii_only "evil.com") by (vm_compute; intuition reflexivity).
  split; [exact H|].
  exact (hashes_ascii_portable x86_64 aarch64 "evil.com" H).
Defined.

(** A byte above 127 is hashed differently on the two kinds of platform. *)
Example non_ascii_depends_on_platform :
  @djb2 x86_64 (String (ascii_of_N 200) "") = 177517
  ∧ @djb2 aarch64 (String (ascii_of_N 200) "") = 177773.
Proof. split; vm_compute; reflexivity. Qed.

(** ** Further properties of the filter *)

Section FilterFacts.
Context {pf : Platform}.
Variable fs : string → option (list string).

Lemma indices_init fname s : indices (init fname) s = positions s.
Proof. reflexivity. Qed.

Lemma wf_positions bf s : wf bf → indices bf s = positions s.
Proof. apply wf_indices. Qed.

Lemma indices_in_capacity bf s : in_capacity (indices bf s).
Proof.
  intros j. unfold indices, index1, index2, index3.
  rewrite !elem_of_union, !elem_of_singleton.
  intros [[->| ->]| ->]; apply index_in_range.
Qed.

Lemma all_indices_in_capacity bf l : in_capacity (all_indices bf l).
Proof.
  intros j (s & _ & Hj)%elem_of_all_indices. by apply (indices_in_capacity bf s).
Qed.

Lemma in_capacity_union b1 b2 :
  in_capacity b1 → in_capacity b2 → in_capacity (b1 ∪ b2).
Proof. intros H1 H2 j [Hj|Hj]%elem_of_union; [by apply H1|by apply H2]. Qed.

Lemma all_indices_cons bf s l :
  all_indices bf (s :: l) = indices bf s ∪ all_indices bf l.
Proof. reflexivity. Qed.

Lemma size_union_le (X Y : gset Z) :
  (base.size (X ∪ Y) ≤ base.size X + base.size Y)%nat.
Proof.
  rewrite size_union_alt.
  assert (base.size (Y ∖ X) ≤ base.size Y)%nat by (apply subseteq_size; set_solver).
  lia.
Qed.

Lemma size_indices bf s : (base.size (indices bf s) ≤ 3)%nat.
Proof.
  unfold indices.
  pose proof (size_union_le ({[index1 bf s; index2 bf s]}) {[index3 bf s]}) as H1.
  pose proof (size_union_le ({[index1 bf s]}) {[index2 bf s]}) as H2.
  rewrite !size_singleton in *. lia.
Qed.

Lemma size_all_indices bf l : (base.size (all_indices bf l) ≤ 3 * length l)%nat.
Proof.
  induction l as [|s l IH].
  - change (all_indices bf []) with (∅ : gset Z). rewrite size_empty. simpl. lia.
  - rewrite all_indices_cons. pose proof (size_union_le (indices bf s) (all_indices bf l)).
    pose proof (size_indices bf s). simpl length. lia.
Qed.

(** The constructor returns, whatever the file. *)
Lemma new_total fname out err :
  ∃ st, new fs fname out err = Ok () st
        ∧ this st = with_size (size (this st))
                      (with_bits (bits (this st)) (init fname))
        ∧ bits (this st) =
          match fs fname with
          | Some lines => all_indices (init fname) lines
          | None => ∅
          end.
Proof.
  destruct (fs fname) as [lines|] eqn:Hf.
  - eexists. split; [by apply new_run|]. done.
  - eexists. split; [by apply new_unopenable|]. done.
Qed.

Lemma test_frame fname st :
  ∃ st', test fs fname st = Ok () st' ∧ this st' = this st.
Proof.
  destruct (fs fname) as [lines|] eqn:Hf.
  - eexists. split; [by apply test_run|done].
  - eexists. split; [by apply test_unopenable|done].
Qed.

Lemma filter_all {A} (f : A → bool) (l : list A) :
  (∀ x, x ∈ l → f x = true) → List.filter f l = l.
Proof.
  induction l as [|x l IH]; intros H; simpl; [done|].
  rewrite (H x) by left. f_equal. apply IH. intros y Hy. apply H. by right.
Qed.

Lemma filter_none {A} (f : A → bool) (l : list A) :
  (∀ x, x ∈ l → f x = false) → List.filter f l = [].
Proof.
  induction l as [|x l IH]; intros H; simpl; [done|].
  rewrite (H x) by left. apply IH. intros y Hy. apply H. by right.
Qed.

Lemma flat_map_ext_elem {A B} (f g : A → list B) (l : list A) :
  (∀ x, x ∈ l → f x = g x) → flat_map f l = flat_map g l.
Proof.
  induction l as [|x l IH]; intros H; simpl; [done|].
  rewrite (H x) by left. f_equal. apply IH. intros y Hy. apply H. by right.
Qed.

(** X6. The true bits stay within the capacity of the bit array: the
    constructor returns for every file, with every true bit below
    1000001 and the parameters [p = 31], [m = 1000000009], and any
    sequence of [add] calls after it keeps both. *)
Theorem capacity_invariant fname out err l :
  ∃ st st', new fs fname out err = Ok () st
            ∧ add_all l st = Ok () st'
            ∧ wf (this st) ∧ wf (this st')
            ∧ in_capacity (bits (this st)) ∧ in_capacity (bits (this st')).
Proof.
  destruct (new_total fname out err) as (st & Hnew & Hthis & Hbits).
  exists st. eexists. split; [done|]. split; [apply add_all_run|].
  assert (Hwf : wf (this st)) by (rewrite Hthis; done).
  assert (Hcap : in_capacity (bits (this st))).
  { rewrite Hbits. destruct (fs fname); [apply all_indices_in_capacity|].
    intros j Hj. set_solver. }
  split_and!; try done.
  simpl. apply in_capacity_union; [apply all_indices_in_capacity|done].
Qed.

(** X7. A filter constructed from a readable file has at most three
    true bits for each line of the file. *)
Theorem at_most_three_bits_per_line fname lines out err :
  fs fname = Some lines →
  ∃ st, new fs fname out err = Ok () st
        ∧ (base.size (bits (this st)) ≤ 3 * length lines)%nat.
Proof.
  intros Hf. eexists. split; [by apply new_run|]. simpl. apply size_all_indices.
Qed.

Lemma new_contains_lines fname lines out err :
  fs fname = Some lines →
  ∃ st, new fs fname out err = Ok () st
        ∧ cout st = out ∧ cerr st = err
        ∧ ∀ s, s ∈ lines → contains s st = Ok true st.
Proof.
  intros Hf. eexists. split; [by apply new_run|]. split; [done|]. split; [done|].
  intros s Hs. rewrite contains_run. f_equal. apply member_subseteq. simpl.
  intros j Hj. apply elem_of_all_indices. by exists s.
Qed.

(** X9. After the construction from a readable file, [contains] reports
    every line of the file; so a string that [contains] does not report
    is not a line of the file. *)
Theorem constructed_contains_lines fname lines out err :
  fs fname = Some lines →
  ∃ st, new fs fname out err = Ok () st
        ∧ (∀ s, s ∈ lines → contains s st = Ok true st)
        ∧ (∀ s, contains s st = Ok false st → s ∉ lines).
Proof.
  intros Hf.
  destruct (new_contains_lines fname lines out err Hf) as (st & Hnew & _ & _ & H).
  exists st. split; [done|]. split; [done|].
  intros s Hfalse Hs. rewrite (H s Hs) in Hfalse. done.
Qed.

(** X10. What a constructed filter reports, exactly: [contains s] is
    true when, and only when, each of the three positions of [s] is a
    position of some line of the file; the lines need not be the same
    for the three positions, which is how a string that was never added
    can be reported. *)
Theorem constructed_contains_iff fname lines out err :
  fs fname = Some lines →
  ∃ st, new fs fname out err = Ok () st
        ∧ ∀ s, ∃ r, contains s st = Ok r st
                    ∧ (r = true ↔
                       ∀ j, j ∈ positions s →
                            ∃ line, line ∈ lines ∧ j ∈ positions line).
Proof.
  intros Hf. eexists. split; [by apply new_run|].
  intros s. eexists. split; [apply contains_run|].
  rewrite member_subseteq. simpl.
  change (indices _ s) with (positions s). split.
  - intros H j Hj. apply H, elem_of_all_indices in Hj as (line & Hl & Hj). eauto.
  - intros H j Hj. apply elem_of_all_indices. by apply H.
Qed.

(** X11. Constructing the filter from a file of at most [INT_MAX] lines
    and then running [test] on the same file reports every line as
    possibly malicious: the positive total is the number of lines, the
    negative total is zero, and the matched list is the file. *)
Theorem construct_then_test_same_file fname lines out err :
  fs fname = Some lines →
  Z.of_nat (length lines) <= INT_MAX →
  ∃ st, new fs fname out err = Ok () st
        ∧ test fs fname st =
          Ok () {| this := this st;
                   cout := out
                           ++ flat_map (λ line, [Str "Checking "; Str line; Str " : ";
                                                 Str "possibly malicious"; Endl]) lines
                           ++ totals (Z.of_nat (length lines)) 0 lines;
                   cerr := err |}.
Proof.
  intros Hf Hlen.
  destruct (new_contains_lines fname lines out err Hf) as (st & Hnew & Hout & Herr & Hin).
  exists st. split; [done|].
  assert (Hres : ∀ s, s ∈ lines → contains_result st s = true).
  { intros s Hs. unfold contains_result. by rewrite (Hin s Hs). }
  rewrite (test_run fs fname lines st Hf).
  unfold matched, unmatched.
  rewrite (filter_all _ _ Hres).
  rewrite (filter_none (λ s, negb (contains_result st s)) lines)
    by (intros s Hs; by rewrite (Hres s Hs)).
  unfold INT_MAX in Hlen. rewrite s32_small by lia.
  change (s32 (Z.of_nat (length []))) with 0.
  rewrite Hout, Herr.
  rewrite (flat_map_ext_elem (checking st)
             (λ line, [Str "Checking "; Str line; Str " : ";
                       Str "possibly malicious"; Endl]) lines); [done|].
  intros s Hs. unfold checking. by rewrite (Hres s Hs).
Qed.

(** X15. When the constructor could not open its file the filter stays
    empty without any other sign than the message on the error stream,
    and a later [test] of at most [INT_MAX] candidates reports every one
    of them as not malicious. *)
Theorem unloaded_filter_reports_nothing fname candidates lines out err :
  fs fname = None →
  fs candidates = Some lines →
  Z.of_nat (length lines) <= INT_MAX →
  ∃ st, new fs fname out err = Ok () st
        ∧ test fs candidates st =
          Ok () {| this := this st;
                   cout := out
                           ++ flat_map (λ line, [Str "Checking "; Str line; Str " : ";
                                                 Str "not malicious"; Endl]) lines
                           ++ totals 0 (Z.of_nat (length lines)) [];
                   cerr := err ++ [Str "Unable to open file: "; Str fname; Endl] |}.
Proof.
  intros Hf Hc Hlen. eexists. split; [by apply new_unopenable|].
  match goal with |- test _ _ ?st = _ => set (st0 := st) end.
  assert (Hres : ∀ s, contains_result st0 s = false).
  { intros s. by rewrite contains_result_member. }
  rewrite (test_run fs candidates lines st0 Hc).
  unfold matched, unmatched.
  rewrite (filter_none (contains_result st0) lines) by (intros; apply Hres).
  rewrite (filter_all (λ s, negb (contains_result st0 s)) lines)
    by (intros s _; by rewrite Hres).
  unfold INT_MAX in Hlen. rewrite (s32_small (Z.of_nat (length lines))) by lia.
  change (s32 (Z.of_nat (length []))) with 0.
  rewrite (flat_map_ext_elem (checking st0)
             (λ line, [Str "Checking "; Str line; Str " : ";
                       Str "not malicious"; Endl]) lines); [done|].
  intros s _. unfold checking. by rewrite Hres.
Qed.

End FilterFacts.

(** X8. Bits are only ever set: after any sequence of [add] calls every
    bit that was true is still true, and every string that [contains]
    reported stays reported. *)
Theorem add_monotone (pf : Platform) st l s :
  wf (this st) →
  ∃ st', add_all l st = Ok () st'
         ∧ bits (this st) ⊆ bits (this st')
         ∧ (contains s st = Ok true st → contains s st' = Ok true st').
Proof.
  intros _. eexists. split; [apply add_all_run|]. split; [simpl; set_solver|].
  rewrite !contains_run. intros [= H]. f_equal.
  apply member_subseteq in H. apply member_subseteq. simpl.
  rewrite indices_with_bits. set_solver.
Qed.

(** X12. The constructed filter does not depend on the order of the
    lines of its file: two files whose lines are permutations of each
    other give the same object, bit array and count. *)
Theorem construction_order_independent `{Platform} fs fs' fname lines lines' out err :
  fs fname = Some lines → fs' fname = Some lines' → lines ≡ₚ lines' →
  new fs fname out err = new fs' fname out err.
Proof.
  intros Hf Hf' Hp.
  rewrite (new_run fs fname lines out err Hf), (new_run fs' fname lines' out err Hf').
  rewrite (all_indices_same_elements _ lines lines') by (intros s; by rewrite Hp).
  by rewrite (Permutation_length Hp).
Qed.

(** ** The menu loop *)

Section MainFacts.
Context {pf : Platform}.
Variable fs : string → option (list string).

Lemma bind_run {A B} (c : M A) (k : A → M B) st a st1 :
  c st = Ok a st1 → (c ≫= k) st = k a st1.
Proof. intros H. unfold mbind, M_bind. by rewrite H. Qed.

Lemma menu_run st : ∃ st', menu st = Ok () st' ∧ this st' = this st.
Proof. eexists. split; reflexivity. Qed.

Lemma write_cout_run ts st :
  ∃ st', write_cout ts st = Ok () st' ∧ this st' = this st.
Proof. eexists. split; reflexivity. Qed.

Lemma contains_frame s st : ∃ r, contains s st = Ok r st.
Proof. eexists. apply contains_run. Qed.

(** One turn that is not the exit, then the rest of the script. *)
Lemma main_loop_run script st :
  ∃ st', main_loop fs script st =
         Ok (if existsb is_exit script then Some 0 else None) st'
         ∧ this st' = this st.
Proof.
  revert st. induction script as [|i rest IH]; intros st.
  - destruct (menu_run st) as (st1 & Hm & H1). simpl main_loop.
    rewrite (bind_run _ _ _ _ _ Hm). eexists. split; [reflexivity|done].
  - destruct (menu_run st) as (st1 & Hm & H1).
    destruct i as [|choice word]; simpl main_loop; rewrite (bind_run _ _ _ _ _ Hm).
    + destruct (write_cout_run
                  [Str ("Invalid input. Please enter a number between 1 and 3." ++ nl)]
                  st1) as (st2 & Hw & H2).
      rewrite (bind_run _ _ _ _ _ Hw).
      destruct (IH st2) as (st' & Hrun & H'). exists st'. split; [exact Hrun|congruence].
    + simpl existsb. destruct (choice =? 1) eqn:E1; [|destruct (choice =? 2) eqn:E2].
      * apply Z.eqb_eq in E1. subst choice. simpl.
        destruct (write_cout_run [Str "Enter the file name to test: "] st1)
          as (st2 & Hw & H2).
        rewrite (bind_run _ _ _ _ _ Hw).
        destruct (test_frame fs word st2) as (st3 & Ht & H3).
        rewrite (bind_run _ _ _ _ _ Ht).
        destruct (IH st3) as (st' & Hrun & H'). exists st'. split; [exact Hrun|congruence].
      * apply Z.eqb_eq in E2. subst choice. simpl.
        destruct (write_cout_run [Str "Enter the website URL to test: "] st1)
          as (st2 & Hw & H2).
        rewrite (bind_run _ _ _ _ _ Hw).
        destruct (contains_frame word st2) as (r & Hc).
        rewrite (bind_run _ _ _ _ _ Hc).
        destruct (write_cout_run
                    [Str "The website "; Str word; Str " is ";
                     Str (website_verdict r); Endl] st2) as (st3 & Hw3 & H3).
        rewrite (bind_run _ _ _ _ _ Hw3).
        destruct (IH st3) as (st' & Hrun & H'). exists st'. split; [exact Hrun|congruence].
      * destruct (choice =? 3) eqn:E3.
        -- eexists. split; [reflexivity|done].
        -- simpl.
           destruct (write_cout_run
                       [Str ("Invalid choice. Please enter a number between 1 and 3." ++ nl)]
                       st1) as (st2 & Hw & H2).
           rewrite (bind_run _ _ _ _ _ Hw).
           destruct (IH st2) as (st' & Hrun & H'). exists st'.
           split; [exact Hrun|congruence].
Qed.

Lemma main_loop_consumed script st :
  main_loop fs (consumed script) st = main_loop fs script st.
Proof.
  revert st. induction script as [|i rest IH]; intros st; [done|].
  destruct (menu_run st) as (st1 & Hm & H1).
  destruct i as [|choice word]; simpl consumed; simpl main_loop;
    rewrite !(bind_run _ _ _ _ _ Hm).
  - unfold mbind, M_bind. simpl. apply IH.
  - destruct (choice =? 3) eqn:E3.
    + apply Z.eqb_eq in E3. subst choice. simpl main_loop.
      by rewrite (bind_run _ _ _ _ _ Hm).
    + simpl main_loop. rewrite (bind_run _ _ _ _ _ Hm), E3.
      destruct (choice =? 1); [|destruct (choice =? 2)].
      * unfold mbind, M_bind. simpl.
        destruct (test fs word _); [apply IH|done].
      * unfold mbind, M_bind. simpl.
        destruct (contains word _); [apply IH|done].
      * unfold mbind, M_bind. simpl. apply IH.
Qed.

(** X13. The menu loop only reads the filter: whatever is typed, no
    turn throws, and after any number of turns the object is the one the
    constructor built from "malicious.csv". *)
Theorem main_read_only script :
  ∃ st r st', new fs "malicious.csv" [] [] = Ok () st
              ∧ main fs script = Ok r st'
              ∧ this st' = this st.
Proof.
  destruct (new_total fs "malicious.csv" [] []) as (st & Hnew & _).
  destruct (main_loop_run script st) as (st' & Hrun & Hthis).
  exists st, (if existsb is_exit script then Some 0 else None), st'.
  split; [done|]. split; [|done]. unfold main. by rewrite Hnew.
Qed.

Lemma menu_text_run st :
  menu st = Ok () {| this := this st; cout := cout st ++ menu_text; cerr := cerr st |}.
Proof.
  destruct st as [bf out err]. unfold menu, menu_text, mbind, M_bind, write_cout.
  simpl. by rewrite <- !app_assoc.
Qed.

Lemma main_loop_no_number rest st :
  main_loop fs (NoNumber :: rest) st =
  main_loop fs rest
    {| this := this st;
       cout := cout st ++ menu_text
               ++ [Str ("Invalid input. Please enter a number between 1 and 3." ++ nl)];
       cerr := cerr st |}.
Proof.
  simpl main_loop. rewrite (bind_run _ _ _ _ _ (menu_text_run st)).
  unfold mbind, M_bind, write_cout. simpl. by rewrite <- app_assoc.
Qed.

Lemma main_loop_other_number choice word rest st :
  choice ≠ 1 → choice ≠ 2 → choice ≠ 3 →
  main_loop fs (Choice choice word :: rest) st =
  main_loop fs rest
    {| this := this st;
       cout := cout st ++ menu_text
               ++ [Str ("Invalid choice. Please enter a number between 1 and 3." ++ nl)];
       cerr := cerr st |}.
Proof.
  intros H1 H2 H3. simpl main_loop. rewrite (bind_run _ _ _ _ _ (menu_text_run st)).
  apply Z.eqb_neq in H1, H2, H3. rewrite H1, H2, H3.
  unfold mbind, M_bind, write_cout. simpl. by rewrite <- app_assoc.
Qed.

Lemma main_loop_three word rest st :
  main_loop fs (Choice 3 word :: rest) st =
  Ok (Some 0) {| this := this st; cout := cout st ++ menu_text; cerr := cerr st |}.
Proof.
  simpl main_loop. by rewrite (bind_run _ _ _ _ _ (menu_text_run st)).
Qed.

(** X14. [main] returns 0 exactly when some turn reads the number 3.
    A turn that reads no number, or a number other than 1, 2 and 3,
    writes the menu and one message to [cout], changes nothing else, and
    the loop goes on with the next turn; the turn that reads 3 writes
    the menu and returns, so that nothing typed after the first 3 is
    read. *)
Theorem main_exit script :
  (∃ st', main fs script =
          Ok (if existsb is_exit script then Some 0 else None) st')
  ∧ main fs (consumed script) = main fs script
  ∧ (∀ rest st,
       main_loop fs (NoNumber :: rest) st =
       main_loop fs rest
         {| this := this st;
            cout := cout st ++ menu_text
                    ++ [Str ("Invalid input. Please enter a number between 1 and 3."
                             ++ nl)];
            cerr := cerr st |})
  ∧ (∀ choice word rest st,
       choice ≠ 1 → choice ≠ 2 → choice ≠ 3 →
       main_loop fs (Choice choice word :: rest) st =
       main_loop fs rest
         {| this := this st;
            cout := cout st ++ menu_text
                    ++ [Str ("Invalid choice. Please enter a number between 1 and 3."
                             ++ nl)];
            cerr := cerr st |})
  ∧ (∀ word rest st,
       main_loop fs (Choice 3 word :: rest) st =
       Ok (Some 0) {| this := this st; cout := cout st ++ menu_text;
                      cerr := cerr st |}).
Proof.
  destruct (new_total fs "malicious.csv" [] []) as (st & Hnew & _).
  destruct (main_loop_run script st) as (st' & Hrun & _).
  split_and!.
  - unfold main. rewrite Hnew. by exists st'.
  - unfold main. rewrite Hnew. apply main_loop_consumed.
  - apply main_loop_no_number.
  - apply main_loop_other_number.
  - apply main_loop_three.
Qed.

End MainFacts.

Example sample_main_returns :
  ∃ st', main sample_files sample_script = Ok (Some 0) st'
         ∧ consumed sample_script =
           [Choice 2 "a"; NoNumber; Choice 1 "candidates.txt"; Choice 7 ""; Choice 3 ""].
Proof. eexists. split; vm_compute; reflexivity. Qed.

(** ** The further statements on the sample run *)

Lemma at_most_three_bits_per_line_witness :
  sample_files "malicious.csv" = Some ["a"; "b"; "c"]
  ∧ ∃ st, new sample_files "malicious.csv" [] [] = Ok () st
          ∧ (base.size (bits (this st)) ≤ 3 * length ["a"; "b"; "c"])%nat.
Proof.
  assert (H : sample_files "malicious.csv" = Some ["a"; "b"; "c"]) by reflexivity.
  split; [exact H|].
  exact (at_most_three_bits_per_line sample_files "malicious.csv" ["a"; "b"; "c"] [] [] H).
Defined.

Lemma add_monotone_witness :
  wf (this sample_state)
  ∧ ∃ st', add_all ["evil.com"; "d"] sample_state = Ok () st'
           ∧ bits (this sample_state) ⊆ bits (this st')
           ∧ (contains "a" sample_state = Ok true sample_state →
              contains "a" st' = Ok true st').
Proof.
  assert (H : wf (this sample_state)) by (split; reflexivity).
  split; [exact H|].
  exact (add_monotone x86_64 sample_state ["evil.com"; "d"] "a" H).
Defined.

Lemma constructed_contains_lines_witness :
  sample_files "malicious.csv" = Some ["a"; "b"; "c"]
  ∧ ∃ st, new sample_files "malicious.csv" [] [] = Ok () st
          ∧ (∀ s, s ∈ ["a"; "b"; "c"] → contains s st = Ok true st)
          ∧ (∀ s, contains s st = Ok false st → s ∉ ["a"; "b"; "c"]).
Proof.
  assert (H : sample_files "malicious.csv" = Some ["a"; "b"; "c"]) by reflexivity.
  split; [exact H|].
  exact (constructed_contains_lines sample_files "malicious.csv" ["a"; "b"; "c"] [] [] H).
Defined.

Lemma constructed_contains_iff_witness :
  sample_files "malicious.csv" = Some ["a"; "b"; "c"]
  ∧ ∃ st, new sample_files "malicious.csv" [] [] = Ok () st
          ∧ ∀ s, ∃ r, contains s st = Ok r st
                      ∧ (r = true ↔
                         ∀ j, j ∈ positions s →
                              ∃ line, line ∈ ["a"; "b"; "c"] ∧ j ∈ positions line).
Proof.
  assert (H : sample_files "malicious.csv" = Some ["a"; "b"; "c"]) by reflexivity.
  split; [exact H|].
  exact (constructed_contains_iff sample_files "malicious.csv" ["a"; "b"; "c"] [] [] H).
Defined.

Lemma construct_then_test_same_file_witness :
  sample_files "malicious.csv" = Some ["a"; "b"; "c"]
  ∧ Z.of_nat (length ["a"; "b"; "c"]) <= INT_MAX
  ∧ ∃ st, new sample_files "malicious.csv" [] [] = Ok () st
          ∧ test sample_files "malicious.csv" st =
            Ok () {| this := this st;
                     cout := []
                             ++ flat_map (λ line, [Str "Checking "; Str line; Str " : ";
                                                   Str "possibly malicious"; Endl])
                                         ["a"; "b"; "c"]
                             ++ totals (Z.of_nat (length ["a"; "b"; "c"])) 0
                                       ["a"; "b"; "c"];
                     cerr := [] |}.
Proof.
  assert (H : sample_files "malicious.csv" = Some ["a"; "b"; "c"]) by reflexivity.
  assert (Hl : Z.of_nat (length ["a"; "b"; "c"]) <= INT_MAX) by (vm_compute; discriminate).
  split; [exact H|]. split; [exact Hl|].
  exact (construct_then_test_same_file sample_files "malicious.csv" ["a"; "b"; "c"]
           [] [] H Hl).
Defined.

Lemma construction_order_independent_witness :
  sample_files "malicious.csv" = Some ["a"; "b"; "c"]
  ∧ (λ _ : string, Some ["c"; "a"; "b"]) "malicious.csv" = Some ["c"; "a"; "b"]
  ∧ ["a"; "b"; "c"] ≡ₚ ["c"; "a"; "b"]
  ∧ new sample_files "malicious.csv" [] []
    = new (λ _ : string, Some ["c"; "a"; "b"]) "malicious.csv" [] [].
Proof.
  assert (H : sample_files "malicious.csv" = Some ["a"; "b"; "c"]) by reflexivity.
  assert (H' : (λ _ : string, Some ["c"; "a"; "b"]) "malicious.csv"
               = Some ["c"; "a"; "b"]) by reflexivity.
  assert (Hp : ["a"; "b"; "c"] ≡ₚ ["c"; "a"; "b"])
    by exact (Permutation_app_comm ["a"; "b"] ["c"]).
  split; [exact H|]. split; [exact H'|]. split; [exact Hp|].
  exact (construction_order_independent sample_files (λ _, Some ["c"; "a"; "b"])
           "malicious.csv" ["a"; "b"; "c"] ["c"; "a"; "b"] [] [] H H' Hp).
Defined.

Lemma unloaded_filter_reports_nothing_witness :
  sample_files "missing.csv" = None
  ∧ sample_files "candidates.txt" = Some ["a"; "d"]
  ∧ Z.of_nat (length ["a"; "d"]) <= INT_MAX
  ∧ ∃ st, new sample_files "missing.csv" [] [] = Ok () st
          ∧ test sample_files "candidates.txt" st =
            Ok () {| this := this st;
                     cout := []
                             ++ flat_map (λ line, [Str "Checking "; Str line; Str " : ";
                                                   Str "not malicious"; Endl]) ["a"; "d"]
                             ++ totals 0 (Z.of_nat (length ["a"; "d"])) [];
                     cerr := [] ++ [Str "Unable to open file: "; Str "missing.csv"; Endl] |}.
Proof.
  assert (H : sample_files "missing.csv" = None) by reflexivity.
  assert (Hc : sample_files "candidates.txt" = Some ["a"; "d"]) by reflexivity.
  assert (Hl : Z.of_nat (length ["a"; "d"]) <= INT_MAX) by (vm_compute; discriminate).
  split; [exact H|]. split; [exact Hc|]. split; [exact Hl|].
  exact (unloaded_filter_reports_nothing sample_files "missing.csv" "candidates.txt"
           ["a"; "d"] [] [] H Hc Hl).
Defined.

Lemma main_exit_witness :
  (∃ st', main sample_files sample_script =
          Ok (if existsb is_exit sample_script then Some 0 else None) st')
  ∧ main sample_files (consumed sample_script) = main sample_files sample_script
  ∧ (∀ rest st,
       main_loop sample_files (NoNumber :: rest) st =
       main_loop sample_files rest
         {| this := this st;
            cout := cout st ++ menu_text
                    ++ [Str ("Invalid input. Please enter a number between 1 and 3."
                             ++ nl)];
            cerr := cerr st |})
  ∧ (∀ choice word rest st,
       choice ≠ 1 → choice ≠ 2 → choice ≠ 3 →
       main_loop sample_files (Choice choice word :: rest) st =
       main_loop sample_files rest
         {| this := this st;
            cout := cout st ++ menu_text
                    ++ [Str ("Invalid choice. Please enter a number between 1 and 3."
                             ++ nl)];
            cerr := cerr st |})
  ∧ (∀ word rest st,
       main_loop sample_files (Choice 3 word :: rest) st =
       Ok (Some 0) {| this := this st; cout := cout st ++ menu_text;
                      cerr := cerr st |}).
Proof. exact (main_exit sample_files sample_script). Defined.
